(** * FeatureBuffer.hh: a circular buffer of feature vectors

    A shallow embedding of the two classes of [FeatureBuffer.hh],
    [FeatureVec] (a bounds-checked view of one frame) and [FeatureBuffer]
    (the circular store), followed by the properties of the
    specification that were checked against them.

    Conventions of the embedding.
    - A C++ [int] is a [Z] between [INT_MIN] and [INT_MAX].  Signed
      overflow is undefined behaviour in C++, so the arithmetic helpers
      return [Undefined] instead of a wrapped value.
    - A call either returns ([Ok]), throws ([Throw], the source throws a
      [std::string]), stops in a failed [assert] ([AssertFail], the
      header is modelled as compiled without [NDEBUG]) or has undefined
      behaviour ([Undefined]).
    - [std::vector<float>] is a [list float]; element access and update
      are stdpp's list lookup and insert.  Allocation never fails.
    - A [const float *] held by a view is either [NULL] or an offset into
      the [m_buffer] of the buffer that produced the view; the reference
      that [operator[]] returns is such an offset as well, and reading or
      assigning through it is [load] or [store] on that vector.
    - A [float] is a [spec_float]; the code only stores and returns
      floats, and value-initialises them to [+0.0]. *)

From Stdlib Require Import ZArith String Bool Lia.
From Stdlib Require Import Floats.SpecFloat.
From stdpp Require Import base list.

Local Open Scope Z_scope.

(** ** Outcomes of a call *)

Inductive outcome (A : Type) : Type :=
| Ok (a : A)
| Throw (what : string)
| AssertFail
| Undefined.

Arguments Ok {A} a.
Arguments Throw {A} what.
Arguments AssertFail {A}.
Arguments Undefined {A}.

Definition bind {A B : Type} (c : outcome A) (k : A -> outcome B) : outcome B :=
  match c with
  | Ok a => k a
  | Throw what => Throw what
  | AssertFail => AssertFail
  | Undefined => Undefined
  end.

Declare Scope outcome_scope.
Delimit Scope outcome_scope with outcome.
Notation "x <- c ;; k" := (bind c (fun x => k))
  (at level 100, c at next level, right associativity) : outcome_scope.
Notation "c ;;; k" := (bind c (fun _ => k))
  (at level 100, right associativity) : outcome_scope.
Local Open Scope outcome_scope.

(** [assert(e)] of <assert.h>. *)
Definition assert (e : bool) : outcome unit :=
  if e then Ok tt else AssertFail.

(** ** The type [int] *)

Definition INT_MIN : Z := - 2 ^ 31.
Definition INT_MAX : Z := 2 ^ 31 - 1.

Definition in_int (z : Z) : Prop := INT_MIN <= z <= INT_MAX.

Definition in_intb (z : Z) : bool := (INT_MIN <=? z) && (z <=? INT_MAX).

(** The result of an [int] operation whose mathematical value is [z]. *)
Definition int_of (z : Z) : outcome Z :=
  if in_intb z then Ok z else Undefined.

Definition int_add (a b : Z) : outcome Z := int_of (a + b).

Definition int_mul (a b : Z) : outcome Z := int_of (a * b).

(** [a % b]: the remainder of the division that truncates towards zero;
    undefined when [b] is zero or the quotient is not an [int]. *)
Definition int_rem (a b : Z) : outcome Z :=
  if (b =? 0) || ((a =? INT_MIN) && (b =? -1)) then Undefined
  else Ok (Z.rem a b).

(** Conversion of an [int] to the 64-bit [size_t]. *)
Definition size_t_of_int (n : Z) : Z := n mod 2 ^ 64.

(** ** [float] and [std::vector<float>] *)

Definition float : Type := spec_float.

(** The value of a value-initialised [float]. *)
Definition fzero : float := S754_zero false.

(** [std::vector<float> v(n)]: [n] value-initialised elements. *)
Definition vector_n (n : nat) : list float := replicate n fzero.

(** [v.resize(n)]: the first [n] elements are kept, and value-initialised
    elements are appended when [n] exceeds the size. *)
Definition vector_resize (v : list float) (n : Z) : list float :=
  take (Z.to_nat n) v ++ replicate (Z.to_nat n - length v) fzero.

(** [&v[n]] for an [int] [n]: [operator[]] takes a [size_t] and does not
    check it; an index that is not below the size is undefined. *)
Definition vector_index (v : list float) (n : Z) : outcome Z :=
  let i := size_t_of_int n in
  if i <? Z.of_nat (length v) then Ok i else Undefined.

(** Reading and assigning through a reference to the element at offset
    [loc] of the vector [mem]. *)
Definition load (mem : list float) (loc : Z) : outcome float :=
  if loc <? 0 then Undefined
  else match mem !! Z.to_nat loc with
       | Some x => Ok x
       | None => Undefined
       end.

Definition store (mem : list float) (loc : Z) (v : float) : outcome (list float) :=
  if (0 <=? loc) && (loc <? Z.of_nat (length mem))
  then Ok (<[Z.to_nat loc := v]> mem)
  else Undefined.

(** ** Pointers into the buffer *)

Inductive pointer : Type :=
| NULL
| Ptr (off : Z).

(** [p[i]] as a reference. *)
Definition ptr_index (p : pointer) (i : Z) : outcome Z :=
  match p with
  | NULL => Undefined
  | Ptr off => Ok (off + i)
  end.

(** ** class FeatureVec *)

Module FeatureVec.

Record t : Type := mk { m_ptr : pointer; m_dim : Z }.

(** [FeatureVec()] *)
Definition default : t := mk NULL 0.

(** [FeatureVec(const float *ptr, int dim)] *)
Definition make (ptr : pointer) (dim : Z) : t := mk ptr dim.

Definition out_of_bounds : string := "FeatureVec out of bounds".

(** [const float &operator[](int index) const] *)
Definition index_const (fv : t) (index : Z) : outcome Z :=
  if (index <? 0) || (index >=? m_dim fv) then Throw out_of_bounds
  else ptr_index (m_ptr fv) index.

(** [float &operator[](int index)] *)
Definition index (fv : t) (index : Z) : outcome Z :=
  if (index <? 0) || (index >=? m_dim fv) then Throw out_of_bounds
  else ptr_index (m_ptr fv) index.

(** [int dim() const] *)
Definition dim (fv : t) : Z := m_dim fv.

(** The view covers [m_dim] elements of the vector [mem]. *)
Definition valid (mem : list float) (fv : t) : Prop :=
  exists off, m_ptr fv = Ptr off /\ 0 <= off /\
              off + m_dim fv <= Z.of_nat (length mem).

End FeatureVec.

(** ** class FeatureBuffer *)

Module FeatureBuffer.

Record t : Type :=
  mk { m_dim : Z; m_num_frames : Z; m_buffer : list float }.

(** [FeatureBuffer() : m_dim(1), m_num_frames(1), m_buffer(1)] *)
Definition ctor : t := mk 1 1 (vector_n 1).

Definition set_num_frames (b : t) (n : Z) : t :=
  mk (m_dim b) n (m_buffer b).

Definition set_dim (b : t) (d : Z) : t :=
  mk d (m_num_frames b) (m_buffer b).

Definition set_buffer (b : t) (v : list float) : t :=
  mk (m_dim b) (m_num_frames b) v.

(** [void resize(int num_frames, int dim)] *)
Definition resize (b : t) (num_frames dim : Z) : outcome t :=
  assert (num_frames >? 0) ;;;
  assert (dim >? 0) ;;;
  let b := set_num_frames b num_frames in
  let b := set_dim b dim in
  n <- int_mul (m_num_frames b) (m_dim b) ;;
  Ok (set_buffer b (vector_resize (m_buffer b) (size_t_of_int n))).

(** [int dim() const] *)
Definition dim (b : t) : Z := m_dim b.

(** [int num_frames() const] *)
Definition num_frames (b : t) : Z := m_num_frames b.

(** [int modulo(int a, int b) const] *)
Definition modulo (a b : Z) : outcome Z :=
  result <- int_rem a b ;;
  if result <? 0 then int_add result b else Ok result.

(** [const FeatureVec operator[](int frame) const] *)
Definition index_const (b : t) (frame : Z) : outcome FeatureVec.t :=
  index <- modulo frame (m_num_frames b) ;;
  off <- int_mul index (m_dim b) ;;
  p <- vector_index (m_buffer b) off ;;
  Ok (FeatureVec.make (Ptr p) (m_dim b)).

(** [FeatureVec operator[](int frame)] *)
Definition index (b : t) (frame : Z) : outcome FeatureVec.t :=
  index <- modulo frame (m_num_frames b) ;;
  off <- int_mul index (m_dim b) ;;
  p <- vector_index (m_buffer b) off ;;
  Ok (FeatureVec.make (Ptr p) (m_dim b)).

(** The caller's expression [buffer[frame][index]] read as a value,
    on a [const] buffer. *)
Definition read (b : t) (frame index : Z) : outcome float :=
  fv <- index_const b frame ;;
  loc <- FeatureVec.index_const fv index ;;
  load (m_buffer b) loc.

(** The caller's statement [buffer[frame][index] = v]. *)
Definition write (b : t) (frame index : Z) (v : float) : outcome t :=
  fv <- FeatureBuffer.index b frame ;;
  loc <- FeatureVec.index fv index ;;
  mem <- store (m_buffer b) loc v ;;
  Ok (set_buffer b mem).

(** The buffers a program can hold: built by the constructor, then
    resized and written any number of times. *)
Inductive reachable : t -> Prop :=
| reach_ctor : reachable ctor
| reach_resize b num_frames dim b' :
    reachable b -> resize b num_frames dim = Ok b' -> reachable b'
| reach_write b frame index v b' :
    reachable b -> write b frame index v = Ok b' -> reachable b'.

(** The shape of a buffer agrees with its storage. *)
Record wf (b : t) : Prop :=
  { wf_dim : 0 < m_dim b;
    wf_num_frames : 0 < m_num_frames b;
    wf_int : m_num_frames b * m_dim b <= INT_MAX;
    wf_size : Z.of_nat (length (m_buffer b)) = m_dim b * m_num_frames b }.

End FeatureBuffer.

(** The storage offset of element [index] of the frame [frame]. *)
Definition slot (b : FeatureBuffer.t) (frame index : Z) : Z :=
  frame mod FeatureBuffer.m_num_frames b * FeatureBuffer.m_dim b + index.

(** ** Concrete buffers

    [window] is a fresh buffer after [resize(3, 2)] and
    [buffer[0][0] = 7.0]. *)

Definition seven : float := S754_finite false 7 0.

Definition window : FeatureBuffer.t :=
  FeatureBuffer.mk 2 3 [seven; fzero; fzero; fzero; fzero; fzero].

(** Writes the two elements [x], [y] of the frame [frame]. *)
Definition write_frame (b : FeatureBuffer.t) (frame : Z) (x y : float) :
    outcome FeatureBuffer.t :=
  b <- FeatureBuffer.write b frame 0 x ;;
  FeatureBuffer.write b frame 1 y.

(** Reads the two elements of the frame [frame]. *)
Definition read_frame (b : FeatureBuffer.t) (frame : Z) :
    outcome (float * float) :=
  x <- FeatureBuffer.read b frame 0 ;;
  y <- FeatureBuffer.read b frame 1 ;;
  Ok (x, y).

(** The float with the value of the positive integer [n]. *)
Definition fl (n : positive) : float := S754_finite false n 0.

(** [resize(3, 2)], then frames 0, 1, 2 and 3 written in turn. *)
Definition sliding_window : outcome FeatureBuffer.t :=
  b <- FeatureBuffer.resize FeatureBuffer.ctor 3 2 ;;
  b <- write_frame b 0 (fl 1) (fl 2) ;;
  b <- write_frame b 1 (fl 3) (fl 4) ;;
  b <- write_frame b 2 (fl 5) (fl 6) ;;
  write_frame b 3 (fl 7) (fl 8).

(** * Properties *)

(** ** Arithmetic on [int] *)

Lemma in_intb_spec (z : Z) : in_intb z = true <-> in_int z.
Proof.
  unfold in_intb, in_int. rewrite andb_true_iff, !Z.leb_le. tauto.
Qed.

Lemma int_of_in_int (z : Z) : in_int z -> int_of z = Ok z.
Proof.
  intros H. unfold int_of. apply in_intb_spec in H. now rewrite H.
Qed.

(** The remainder of the truncating division, moved into [[0, b)], is the
    remainder of the flooring division. *)
Lemma rem_adjust (a b : Z) :
  0 < b ->
  (if Z.rem a b <? 0 then Z.rem a b + b else Z.rem a b) = a mod b.
Proof.
  intros Hb.
  assert (Hqr : a = b * (a ÷ b) + Z.rem a b) by (apply Z.quot_rem'; lia).
  assert (Habs : Z.abs (Z.rem a b) < Z.abs b) by (apply Z.rem_bound_abs; lia).
  destruct (Z.ltb_spec (Z.rem a b) 0) as [Hneg | Hpos].
  - apply Z.mod_unique_pos with (q := a ÷ b - 1); lia.
  - apply Z.mod_unique_pos with (q := a ÷ b); lia.
Qed.

Lemma int_rem_pos (a b : Z) : 0 < b -> int_rem a b = Ok (Z.rem a b).
Proof.
  intros Hb. unfold int_rem.
  destruct (Z.eqb_spec b 0); [lia|].
  destruct (Z.eqb_spec b (-1)); [lia|].
  now rewrite andb_false_r.
Qed.

Lemma modulo_mod (a b : Z) :
  0 < b -> b <= INT_MAX -> FeatureBuffer.modulo a b = Ok (a mod b).
Proof.
  intros Hb Hmax. unfold FeatureBuffer.modulo.
  rewrite int_rem_pos by assumption. cbn [bind].
  pose proof (rem_adjust a b Hb) as Hadj.
  pose proof (Z.mod_pos_bound a b Hb) as Hbound.
  destruct (Z.rem a b <? 0).
  - unfold int_add. rewrite Hadj. apply int_of_in_int.
    unfold in_int, INT_MIN, INT_MAX in *. lia.
  - now rewrite Hadj.
Qed.

(** ** The vector *)

Lemma vector_resize_length (v : list float) (n : Z) :
  length (vector_resize v n) = Z.to_nat n.
Proof.
  unfold vector_resize.
  rewrite length_app, length_take, length_replicate. lia.
Qed.

Lemma vector_resize_same (v : list float) (n : Z) :
  Z.to_nat n = length v -> vector_resize v n = v.
Proof.
  intros Hn. unfold vector_resize. rewrite Hn.
  rewrite Nat.sub_diag, firstn_all. cbn. apply app_nil_r.
Qed.

Lemma vector_resize_lookup_old (v : list float) (n : Z) (i : nat) :
  (i < Z.to_nat n)%nat -> (i < length v)%nat ->
  vector_resize v n !! i = v !! i.
Proof.
  intros Hn Hv. unfold vector_resize.
  rewrite lookup_app_l by (rewrite length_take; lia).
  now apply lookup_take_lt.
Qed.

Lemma vector_resize_lookup_new (v : list float) (n : Z) (i : nat) :
  (i < Z.to_nat n)%nat -> (length v <= i)%nat ->
  vector_resize v n !! i = Some fzero.
Proof.
  intros Hn Hv. unfold vector_resize.
  rewrite lookup_app_r by (rewrite length_take; lia).
  apply lookup_replicate_2. rewrite length_take. lia.
Qed.

Lemma size_t_of_int_nonneg (n : Z) :
  0 <= n <= INT_MAX -> size_t_of_int n = n.
Proof.
  intros H. unfold size_t_of_int. apply Z.mod_small.
  unfold INT_MAX in H. lia.
Qed.

(** ** The buffer *)

Lemma resize_Ok_iff (b b' : FeatureBuffer.t) (num_frames dim : Z) :
  FeatureBuffer.resize b num_frames dim = Ok b' <->
  0 < num_frames /\ 0 < dim /\ num_frames * dim <= INT_MAX /\
  b' = FeatureBuffer.mk dim num_frames
         (vector_resize (FeatureBuffer.m_buffer b) (num_frames * dim)).
Proof.
  unfold FeatureBuffer.resize, assert, int_mul, int_of. cbn.
  destruct (Z.gtb_spec num_frames 0) as [Hn | Hn]; cbn;
    [|split; [discriminate | lia]].
  destruct (Z.gtb_spec dim 0) as [Hd | Hd]; cbn;
    [|split; [discriminate | lia]].
  destruct (in_intb (num_frames * dim)) eqn:E; cbn.
  - apply in_intb_spec in E. destruct E as [_ E].
    rewrite size_t_of_int_nonneg by lia.
    unfold FeatureBuffer.set_buffer. cbn.
    split; [intros [= <-]; auto | intros (_ & _ & _ & ->); reflexivity].
  - split; [discriminate|]. intros (_ & _ & Hmax & _).
    assert (in_intb (num_frames * dim) = true); [|congruence].
    apply in_intb_spec. unfold in_int, INT_MIN. lia.
Qed.

Lemma ctor_wf : FeatureBuffer.wf FeatureBuffer.ctor.
Proof. split; cbn; unfold INT_MAX; lia. Qed.

Lemma resize_wf (b b' : FeatureBuffer.t) (num_frames dim : Z) :
  FeatureBuffer.resize b num_frames dim = Ok b' -> FeatureBuffer.wf b'.
Proof.
  intros H. apply resize_Ok_iff in H. destruct H as (Hn & Hd & Hmax & ->).
  split; cbn; try assumption.
  rewrite vector_resize_length. lia.
Qed.

Lemma slot_bounds (b : FeatureBuffer.t) (frame index : Z) :
  FeatureBuffer.wf b -> 0 <= index < FeatureBuffer.m_dim b ->
  0 <= slot b frame index < Z.of_nat (length (FeatureBuffer.m_buffer b)).
Proof.
  intros [Hd Hn Hmax Hsize] Hi. unfold slot. rewrite Hsize.
  pose proof (Z.mod_pos_bound frame _ Hn). nia.
Qed.

Lemma index_wf (b : FeatureBuffer.t) (frame : Z) :
  FeatureBuffer.wf b ->
  FeatureBuffer.index b frame =
    Ok (FeatureVec.make (Ptr (slot b frame 0)) (FeatureBuffer.m_dim b)).
Proof.
  intros Hwf. pose proof (slot_bounds b frame 0 Hwf) as Hs.
  destruct Hwf as [Hd Hn Hmax Hsize]. specialize (Hs ltac:(lia)).
  unfold slot in *. rewrite Z.add_0_r in *.
  pose proof (Z.mod_pos_bound frame _ Hn) as Hm.
  unfold FeatureBuffer.index.
  rewrite modulo_mod by nia. cbn [bind].
  unfold int_mul. rewrite int_of_in_int by (unfold in_int, INT_MIN; nia).
  cbn [bind]. unfold vector_index.
  rewrite size_t_of_int_nonneg by nia.
  destruct (Z.ltb_spec (frame mod FeatureBuffer.m_num_frames b
                        * FeatureBuffer.m_dim b)
              (Z.of_nat (length (FeatureBuffer.m_buffer b)))); [|lia].
  reflexivity.
Qed.

Lemma index_const_eq (b : FeatureBuffer.t) (frame : Z) :
  FeatureBuffer.index_const b frame = FeatureBuffer.index b frame.
Proof. reflexivity. Qed.

Lemma view_index (off dim index : Z) :
  FeatureVec.index (FeatureVec.make (Ptr off) dim) index =
    if (index <? 0) || (index >=? dim)
    then Throw FeatureVec.out_of_bounds else Ok (off + index).
Proof. reflexivity. Qed.

Lemma view_index_const_eq (fv : FeatureVec.t) (index : Z) :
  FeatureVec.index_const fv index = FeatureVec.index fv index.
Proof. reflexivity. Qed.

Lemma in_dim_test (dim index : Z) :
  0 <= index < dim -> (index <? 0) || (index >=? dim) = false.
Proof.
  intros H. destruct (Z.ltb_spec index 0); [lia|].
  destruct (Z.geb_spec index dim); [lia | reflexivity].
Qed.

Lemma out_dim_test (dim index : Z) :
  index < 0 \/ index >= dim -> (index <? 0) || (index >=? dim) = true.
Proof.
  intros H. destruct (Z.ltb_spec index 0); [reflexivity|].
  destruct (Z.geb_spec index dim); [reflexivity | lia].
Qed.

Lemma write_wf (b : FeatureBuffer.t) (frame index : Z) (v : float) :
  FeatureBuffer.wf b -> 0 <= index < FeatureBuffer.m_dim b ->
  FeatureBuffer.write b frame index v =
    Ok (FeatureBuffer.set_buffer b
          (<[Z.to_nat (slot b frame index) := v]> (FeatureBuffer.m_buffer b))).
Proof.
  intros Hwf Hi. pose proof (slot_bounds b frame index Hwf Hi) as Hs.
  unfold FeatureBuffer.write. rewrite index_wf by assumption. cbn [bind].
  rewrite view_index, in_dim_test by assumption. cbn [bind].
  replace (slot b frame 0 + index) with (slot b frame index)
    by (unfold slot; lia).
  unfold store.
  destruct (Z.leb_spec 0 (slot b frame index)); [|lia].
  destruct (Z.ltb_spec (slot b frame index)
              (Z.of_nat (length (FeatureBuffer.m_buffer b)))); [|lia].
  reflexivity.
Qed.

Lemma read_wf (b : FeatureBuffer.t) (frame index : Z) :
  FeatureBuffer.wf b -> 0 <= index < FeatureBuffer.m_dim b ->
  exists x,
    FeatureBuffer.m_buffer b !! Z.to_nat (slot b frame index) = Some x /\
    FeatureBuffer.read b frame index = Ok x.
Proof.
  intros Hwf Hi. pose proof (slot_bounds b frame index Hwf Hi) as Hs.
  destruct (lookup_lt_is_Some_2 (FeatureBuffer.m_buffer b)
              (Z.to_nat (slot b frame index))) as [x Hx]; [lia|].
  exists x. split; [assumption|].
  unfold FeatureBuffer.read.
  rewrite index_const_eq, index_wf by assumption. cbn [bind].
  rewrite view_index_const_eq, view_index, in_dim_test by assumption.
  cbn [bind].
  replace (slot b frame 0 + index) with (slot b frame index)
    by (unfold slot; lia).
  unfold load. destruct (Z.ltb_spec (slot b frame index) 0); [lia|].
  now rewrite Hx.
Qed.

Lemma access_out_of_bounds (b : FeatureBuffer.t) (frame index : Z) (v : float) :
  FeatureBuffer.wf b -> index < 0 \/ index >= FeatureBuffer.m_dim b ->
  FeatureBuffer.read b frame index = Throw FeatureVec.out_of_bounds /\
  FeatureBuffer.write b frame index v = Throw FeatureVec.out_of_bounds.
Proof.
  intros Hwf Hi. unfold FeatureBuffer.read, FeatureBuffer.write.
  rewrite index_const_eq, index_wf by assumption. cbn [bind].
  rewrite view_index_const_eq, view_index, out_dim_test by assumption.
  split; reflexivity.
Qed.

Lemma write_preserves_wf (b b' : FeatureBuffer.t) (frame index : Z) (v : float) :
  FeatureBuffer.wf b -> FeatureBuffer.write b frame index v = Ok b' ->
  FeatureBuffer.wf b'.
Proof.
  intros Hwf H.
  destruct (Z.lt_ge_cases index 0) as [Hlo | Hlo];
    [rewrite (proj2 (access_out_of_bounds b frame index v Hwf (or_introl Hlo))) in H;
     discriminate|].
  destruct (Z.lt_ge_cases index (FeatureBuffer.m_dim b)) as [Hhi | Hhi].
  - rewrite write_wf in H by (assumption || lia). injection H as <-.
    destruct Hwf as [Hd Hn Hmax Hsize].
    split; cbn; try assumption. now rewrite length_insert.
  - assert (Hout : index < 0 \/ index >= FeatureBuffer.m_dim b) by lia.
    rewrite (proj2 (access_out_of_bounds b frame index v Hwf Hout)) in H.
    discriminate.
Qed.

Lemma reachable_wf (b : FeatureBuffer.t) :
  FeatureBuffer.reachable b -> FeatureBuffer.wf b.
Proof.
  induction 1 as [| b nf d b' _ _ Hres | b frame index v b' _ IH Hw].
  - apply ctor_wf.
  - eapply resize_wf; eassumption.
  - eapply write_preserves_wf; eassumption.
Qed.

Lemma modulo_congruent (n frame frame' : Z) :
  0 < n -> (n | frame' - frame) -> frame' mod n = frame mod n.
Proof.
  intros Hn [k Hk]. replace frame' with (frame + k * n) by lia.
  apply Z.mod_add. lia.
Qed.

Lemma slot_congruent (b : FeatureBuffer.t) (frame frame' index : Z) :
  FeatureBuffer.wf b ->
  (FeatureBuffer.m_num_frames b | frame' - frame) ->
  slot b frame' index = slot b frame index.
Proof.
  intros Hwf Hdiv. unfold slot.
  now rewrite (modulo_congruent _ frame frame') by (assumption || apply Hwf).
Qed.

Lemma window_reachable : FeatureBuffer.reachable window.
Proof.
  apply FeatureBuffer.reach_write
    with (b := FeatureBuffer.mk 2 3 (replicate 6 fzero))
         (frame := 0) (index := 0) (v := seven); [|reflexivity].
  apply FeatureBuffer.reach_resize
    with (b := FeatureBuffer.ctor) (num_frames := 3) (dim := 2);
    [apply FeatureBuffer.reach_ctor | reflexivity].
Qed.

(** The scenario of the specification: the fourth frame lands on the
    slot of frame 0, and frame 1 is untouched. *)
Example sliding_window_reads :
  exists b,
    sliding_window = Ok b /\
    read_frame b 0 = Ok (fl 7, fl 8) /\
    read_frame b (-3) = Ok (fl 7, fl 8) /\
    read_frame b 1 = Ok (fl 3, fl 4).
Proof. eexists. repeat split. Qed.

(** The product of the shape has to be an [int]: [4 * 2^30] is not. *)
Example resize_product_overflow :
  FeatureBuffer.resize FeatureBuffer.ctor 4 1073741824 = Undefined.
Proof. reflexivity. Qed.

(** ** The claims *)

(** C2: for every [frame] and every [int] [num_frames > 0], [modulo]
    returns the remainder of [frame % num_frames] with [num_frames] added
    once when that remainder is negative; the result lies in
    [[0, num_frames)] and is congruent to [frame] modulo [num_frames]. *)
Theorem modulo_floored (frame num_frames : Z) :
  0 < num_frames -> in_int num_frames ->
  exists r,
    FeatureBuffer.modulo frame num_frames = Ok r /\
    r = (let result := Z.rem frame num_frames in
         if result <? 0 then result + num_frames else result) /\
    0 <= r < num_frames /\
    (num_frames | r - frame).
Proof.
  intros Hn [_ Hmax]. exists (frame mod num_frames).
  split; [now apply modulo_mod|].
  split; [cbv zeta; now rewrite rem_adjust|].
  split; [now apply Z.mod_pos_bound|].
  exists (- (frame / num_frames)).
  pose proof (Z.div_mod frame num_frames). lia.
Qed.

Lemma modulo_floored_witness :
  0 < 3 /\ in_int 3 /\
  exists r,
    FeatureBuffer.modulo (-7) 3 = Ok r /\
    r = (let result := Z.rem (-7) 3 in
         if result <? 0 then result + 3 else result) /\
    0 <= r < 3 /\
    (3 | r - -7).
Proof.
  split; [lia|]. split; [unfold in_int, INT_MIN, INT_MAX; lia|].
  apply (modulo_floored (-7) 3); [lia | unfold in_int, INT_MIN, INT_MAX; lia].
Defined.

(** C1: on every buffer a program can hold, a value written through
    [buffer[frame][index]] is the value read through
    [buffer[frame'][index]] whenever [frame'] is congruent to [frame]
    modulo [num_frames] and [index] is in [[0, dim)]; and [buffer[-1]]
    is the same view as [buffer[num_frames - 1]]. *)
Theorem wraparound_aliasing (b : FeatureBuffer.t) (frame frame' index : Z)
    (v : float) :
  FeatureBuffer.reachable b ->
  (FeatureBuffer.num_frames b | frame' - frame) ->
  0 <= index < FeatureBuffer.dim b ->
  (exists b',
      FeatureBuffer.write b frame index v = Ok b' /\
      FeatureBuffer.read b' frame' index = Ok v) /\
  (exists fv,
      FeatureBuffer.index b (-1) = Ok fv /\
      FeatureBuffer.index b (FeatureBuffer.num_frames b - 1) = Ok fv /\
      FeatureBuffer.index_const b (-1) = Ok fv /\
      FeatureBuffer.index_const b (FeatureBuffer.num_frames b - 1) = Ok fv).
Proof.
  unfold FeatureBuffer.num_frames, FeatureBuffer.dim.
  intros Hreach Hdiv Hi. pose proof (reachable_wf b Hreach) as Hwf.
  split.
  - eexists. split; [apply write_wf; assumption|].
    set (b' := FeatureBuffer.set_buffer b _).
    assert (Hwf' : FeatureBuffer.wf b').
    { eapply write_preserves_wf; [exact Hwf|].
      apply write_wf with (frame := frame) (v := v); eassumption. }
    destruct (read_wf b' frame' index Hwf' Hi) as (x & Hx & Hread).
    rewrite Hread. f_equal.
    change (slot b' frame' index) with (slot b frame' index) in Hx.
    rewrite (slot_congruent b frame frame') in Hx by assumption.
    subst b'. cbn in Hx.
    rewrite list_lookup_insert_eq in Hx
      by (pose proof (slot_bounds b frame index Hwf Hi); lia).
    congruence.
  - assert (Hs : slot b (FeatureBuffer.m_num_frames b - 1) 0 = slot b (-1) 0).
    { apply slot_congruent; [assumption|]. exists 1. lia. }
    pose proof (index_wf b (-1) Hwf) as Hlast.
    pose proof (index_wf b (FeatureBuffer.m_num_frames b - 1) Hwf) as Hwrap.
    rewrite Hs in Hwrap.
    exists (FeatureVec.make (Ptr (slot b (-1) 0)) (FeatureBuffer.m_dim b)).
    repeat split; first [exact Hlast | exact Hwrap].
Qed.

Lemma wraparound_aliasing_witness :
  FeatureBuffer.reachable window /\
  (FeatureBuffer.num_frames window | -1 - 5) /\
  0 <= 1 < FeatureBuffer.dim window /\
  (exists b',
      FeatureBuffer.write window 5 1 seven = Ok b' /\
      FeatureBuffer.read b' (-1) 1 = Ok seven) /\
  (exists fv,
      FeatureBuffer.index window (-1) = Ok fv /\
      FeatureBuffer.index window (FeatureBuffer.num_frames window - 1) = Ok fv /\
      FeatureBuffer.index_const window (-1) = Ok fv /\
      FeatureBuffer.index_const window (FeatureBuffer.num_frames window - 1)
        = Ok fv).
Proof.
  assert (Hdiv : (FeatureBuffer.num_frames window | -1 - 5))
    by (exists (-2); reflexivity).
  assert (Hi : 0 <= 1 < FeatureBuffer.dim window) by (cbn; lia).
  split; [exact window_reachable|]. split; [exact Hdiv|]. split; [exact Hi|].
  exact (wraparound_aliasing window 5 (-1) 1 seven window_reachable Hdiv Hi).
Defined.

(** The two outcomes of the bounds check of a view. *)
Lemma view_index_out (fv : FeatureVec.t) (index : Z) :
  index < 0 \/ index >= FeatureVec.m_dim fv ->
  FeatureVec.index fv index = Throw FeatureVec.out_of_bounds.
Proof.
  intros Hout. unfold FeatureVec.index. now rewrite out_dim_test.
Qed.

Lemma view_index_Throw (fv : FeatureVec.t) (index : Z) (what : string) :
  FeatureVec.index fv index = Throw what ->
  index < 0 \/ index >= FeatureVec.m_dim fv.
Proof.
  unfold FeatureVec.index.
  destruct (Z.ltb_spec index 0); [lia|].
  destruct (Z.geb_spec index (FeatureVec.m_dim fv)); [lia|].
  cbn. destruct (FeatureVec.m_ptr fv); discriminate.
Qed.

Lemma view_index_valid (mem : list float) (fv : FeatureVec.t) (index : Z)
    (v : float) :
  FeatureVec.valid mem fv -> 0 <= index < FeatureVec.m_dim fv ->
  exists loc x mem',
    FeatureVec.index fv index = Ok loc /\
    load mem loc = Ok x /\
    store mem loc v = Ok mem'.
Proof.
  intros (off & Hptr & Hoff & Hlen) Hi.
  assert (Hlt : (Z.to_nat (off + index) < length mem)%nat) by lia.
  destruct (lookup_lt_is_Some_2 mem _ Hlt) as [x Hx].
  exists (off + index), x, (<[Z.to_nat (off + index) := v]> mem).
  unfold FeatureVec.index.
  rewrite in_dim_test, Hptr by assumption. cbn [ptr_index].
  unfold load, store. rewrite Hx.
  destruct (Z.ltb_spec (off + index) 0); [lia|].
  destruct (Z.leb_spec 0 (off + index)); [|lia].
  destruct (Z.ltb_spec (off + index) (Z.of_nat (length mem))); [|lia].
  repeat split.
Qed.

(** C3: on every view, read access and mutable access by [index] throw
    the message ["FeatureVec out of bounds"] exactly when [index < 0] or
    [index >= dim]; for [index] in [[0, dim)] neither throws, and on a
    view that covers [dim] elements of a vector both return the same
    element, which can then be read and assigned. *)
Theorem view_bounds_error (fv : FeatureVec.t) (index : Z) :
  (index < 0 \/ index >= FeatureVec.dim fv ->
   FeatureVec.index_const fv index = Throw "FeatureVec out of bounds" /\
   FeatureVec.index fv index = Throw "FeatureVec out of bounds") /\
  (forall what,
      FeatureVec.index_const fv index = Throw what \/
      FeatureVec.index fv index = Throw what ->
      index < 0 \/ index >= FeatureVec.dim fv) /\
  (forall mem v,
      FeatureVec.valid mem fv -> 0 <= index < FeatureVec.dim fv ->
      exists loc x mem',
        FeatureVec.index_const fv index = Ok loc /\
        FeatureVec.index fv index = Ok loc /\
        load mem loc = Ok x /\
        store mem loc v = Ok mem').
Proof.
  unfold FeatureVec.dim. split; [|split].
  - intros Hout. rewrite view_index_const_eq.
    split; now apply view_index_out.
  - intros what [H | H]; [rewrite view_index_const_eq in H|];
      now apply view_index_Throw in H.
  - intros mem v Hvalid Hi.
    destruct (view_index_valid mem fv index v Hvalid Hi)
      as (loc & x & mem' & Hloc & Hload & Hstore).
    exists loc, x, mem'. rewrite view_index_const_eq. auto.
Qed.

Lemma view_bounds_error_witness :
  FeatureVec.valid (FeatureBuffer.m_buffer window) (FeatureVec.make (Ptr 2) 2) /\
  0 <= 1 < FeatureVec.dim (FeatureVec.make (Ptr 2) 2) /\
  exists loc x mem',
    FeatureVec.index_const (FeatureVec.make (Ptr 2) 2) 1 = Ok loc /\
    FeatureVec.index (FeatureVec.make (Ptr 2) 2) 1 = Ok loc /\
    load (FeatureBuffer.m_buffer window) loc = Ok x /\
    store (FeatureBuffer.m_buffer window) loc seven = Ok mem'.
Proof.
  assert (Hvalid : FeatureVec.valid (FeatureBuffer.m_buffer window)
                     (FeatureVec.make (Ptr 2) 2)).
  { exists 2. cbn. repeat split; lia. }
  assert (Hi : 0 <= 1 < FeatureVec.dim (FeatureVec.make (Ptr 2) 2))
    by (cbn; lia).
  split; [exact Hvalid|]. split; [exact Hi|].
  exact (proj2 (proj2 (view_bounds_error (FeatureVec.make (Ptr 2) 2) 1))
           (FeatureBuffer.m_buffer window) seven Hvalid Hi).
Defined.

(** C10: the default-constructed view has dimension 0, and every read or
    mutable access to it, at any index, throws the bounds error; the
    access never reaches the null base pointer, whose use would be
    undefined. *)
Theorem default_view_always_throws (index : Z) :
  FeatureVec.dim FeatureVec.default = 0 /\
  FeatureVec.m_ptr FeatureVec.default = NULL /\
  FeatureVec.index_const FeatureVec.default index
    = Throw "FeatureVec out of bounds" /\
  FeatureVec.index FeatureVec.default index
    = Throw "FeatureVec out of bounds" /\
  ptr_index (FeatureVec.m_ptr FeatureVec.default) index = Undefined.
Proof.
  assert (Hout : index < 0 \/ index >= FeatureVec.m_dim FeatureVec.default)
    by (cbn; lia).
  repeat split.
  - rewrite view_index_const_eq. now apply view_index_out.
  - now apply view_index_out.
Qed.

(** C4: on every buffer a program can hold, indexing by any [frame],
    [const] or not, returns a view of [dim] elements that lies inside
    the storage; an element access through it either succeeds or throws
    the view's bounds error, and nothing else can happen. *)
Theorem frame_index_never_fails (b : FeatureBuffer.t) (frame : Z) :
  FeatureBuffer.reachable b ->
  exists fv,
    FeatureBuffer.index b frame = Ok fv /\
    FeatureBuffer.index_const b frame = Ok fv /\
    FeatureVec.dim fv = FeatureBuffer.dim b /\
    FeatureVec.valid (FeatureBuffer.m_buffer b) fv /\
    forall index v,
      (0 <= index < FeatureBuffer.dim b ->
       (exists x, FeatureBuffer.read b frame index = Ok x) /\
       (exists b', FeatureBuffer.write b frame index v = Ok b')) /\
      (index < 0 \/ index >= FeatureBuffer.dim b ->
       FeatureBuffer.read b frame index = Throw "FeatureVec out of bounds" /\
       FeatureBuffer.write b frame index v = Throw "FeatureVec out of bounds").
Proof.
  unfold FeatureBuffer.dim. intros Hreach.
  pose proof (reachable_wf b Hreach) as Hwf.
  exists (FeatureVec.make (Ptr (slot b frame 0)) (FeatureBuffer.m_dim b)).
  split; [now apply index_wf|]. split; [now apply index_wf|].
  split; [reflexivity|]. split.
  - exists (slot b frame 0). cbn.
    pose proof (Z.mod_pos_bound frame _ (FeatureBuffer.wf_num_frames b Hwf)).
    destruct Hwf as [Hd Hn Hmax Hsize]. unfold slot. rewrite Hsize.
    repeat split; nia.
  - intros index v. split.
    + intros Hi. split.
      * destruct (read_wf b frame index Hwf Hi) as (x & _ & Hread). eauto.
      * eexists. now apply write_wf.
    + intros Hout. now apply access_out_of_bounds.
Qed.

Lemma frame_index_never_fails_witness :
  FeatureBuffer.reachable window /\
  exists fv,
    FeatureBuffer.index window (-2147483648) = Ok fv /\
    FeatureBuffer.index_const window (-2147483648) = Ok fv /\
    FeatureVec.dim fv = FeatureBuffer.dim window /\
    FeatureVec.valid (FeatureBuffer.m_buffer window) fv /\
    forall index v,
      (0 <= index < FeatureBuffer.dim window ->
       (exists x, FeatureBuffer.read window (-2147483648) index = Ok x) /\
       (exists b', FeatureBuffer.write window (-2147483648) index v = Ok b')) /\
      (index < 0 \/ index >= FeatureBuffer.dim window ->
       FeatureBuffer.read window (-2147483648) index
         = Throw "FeatureVec out of bounds" /\
       FeatureBuffer.write window (-2147483648) index v
         = Throw "FeatureVec out of bounds").
Proof.
  split; [exact window_reachable|].
  exact (frame_index_never_fails window (-2147483648) window_reachable).
Defined.

(** C5: whenever [resize(num_frames, dim)] returns, [dim()] is [dim] and
    [num_frames()] is [num_frames], and after a second [resize] the two
    accessors give the arguments of the second call only; [resize]
    returns for all positive arguments whose product is an [int]. *)
Theorem resize_sets_shape (b : FeatureBuffer.t) (num_frames dim : Z) :
  (forall b1,
      FeatureBuffer.resize b num_frames dim = Ok b1 ->
      FeatureBuffer.dim b1 = dim /\
      FeatureBuffer.num_frames b1 = num_frames /\
      forall num_frames' dim' b2,
        FeatureBuffer.resize b1 num_frames' dim' = Ok b2 ->
        FeatureBuffer.dim b2 = dim' /\
        FeatureBuffer.num_frames b2 = num_frames') /\
  (0 < num_frames -> 0 < dim -> num_frames * dim <= INT_MAX ->
   exists b1, FeatureBuffer.resize b num_frames dim = Ok b1).
Proof.
  split.
  - intros b1 H1. apply resize_Ok_iff in H1.
    destruct H1 as (_ & _ & _ & ->). cbn.
    repeat split.
    all: apply resize_Ok_iff in H; destruct H as (_ & _ & _ & ->);
      reflexivity.
  - intros Hn Hd Hmax. eexists. apply resize_Ok_iff. eauto.
Qed.

Lemma resize_sets_shape_witness :
  (0 < 3 /\ 0 < 2 /\ 3 * 2 <= INT_MAX) /\
  exists b1 b2,
    FeatureBuffer.resize FeatureBuffer.ctor 3 2 = Ok b1 /\
    FeatureBuffer.dim b1 = 2 /\
    FeatureBuffer.num_frames b1 = 3 /\
    FeatureBuffer.resize b1 5 4 = Ok b2 /\
    FeatureBuffer.dim b2 = 4 /\
    FeatureBuffer.num_frames b2 = 5.
Proof.
  split; [unfold INT_MAX; lia|].
  destruct (proj2 (resize_sets_shape FeatureBuffer.ctor 3 2))
    as [b1 H1]; [lia | lia | unfold INT_MAX; lia |].
  destruct (proj2 (resize_sets_shape b1 5 4))
    as [b2 H2]; [lia | lia | unfold INT_MAX; lia |].
  destruct (proj1 (resize_sets_shape FeatureBuffer.ctor 3 2) b1 H1)
    as (Hd1 & Hn1 & Hsecond).
  destruct (Hsecond 5 4 b2 H2) as [Hd2 Hn2].
  exists b1, b2. auto 6.
Defined.

(** C6: the storage of a default-constructed buffer, and of every buffer
    obtained from it by resizes and writes, has [dim * num_frames]
    elements. *)
Theorem storage_length_invariant (b : FeatureBuffer.t) :
  FeatureBuffer.reachable b ->
  Z.of_nat (length (FeatureBuffer.m_buffer b)) =
    FeatureBuffer.dim b * FeatureBuffer.num_frames b.
Proof.
  intros Hreach. apply reachable_wf in Hreach. apply Hreach.
Qed.

Lemma storage_length_invariant_witness :
  FeatureBuffer.reachable window /\
  Z.of_nat (length (FeatureBuffer.m_buffer window)) =
    FeatureBuffer.dim window * FeatureBuffer.num_frames window.
Proof.
  split; [exact window_reachable|].
  exact (storage_length_invariant window window_reachable).
Defined.

(** C8: [resize] stops in a failed assertion, and neither returns nor
    throws, exactly when [num_frames <= 0] or [dim <= 0]; with both
    arguments positive the assertions pass. *)
Theorem resize_assertion (b : FeatureBuffer.t) (num_frames dim : Z) :
  FeatureBuffer.resize b num_frames dim = AssertFail <->
  num_frames <= 0 \/ dim <= 0.
Proof.
  unfold FeatureBuffer.resize, assert.
  destruct (Z.gtb_spec num_frames 0) as [Hn | Hn]; cbn [bind];
    [|split; [lia | reflexivity]].
  destruct (Z.gtb_spec dim 0) as [Hd | Hd]; cbn [bind];
    [|split; [lia | reflexivity]].
  split; [|lia].
  cbv zeta. unfold int_mul, int_of.
  destruct (in_intb _); cbn [bind]; discriminate.
Qed.

(** C9: on every buffer a program can hold, a write through
    [buffer[frame][index]] with [index] in [[0, dim)] returns, replaces
    the storage element at offset [modulo(frame, num_frames) * dim + index]
    by the written value, and leaves every other element, the size of
    the storage, [dim] and [num_frames] as they were. *)
Theorem write_changes_one_element (b : FeatureBuffer.t) (frame index : Z)
    (v : float) :
  FeatureBuffer.reachable b ->
  0 <= index < FeatureBuffer.dim b ->
  exists p b',
    FeatureBuffer.modulo frame (FeatureBuffer.num_frames b) = Ok p /\
    FeatureBuffer.write b frame index v = Ok b' /\
    FeatureBuffer.dim b' = FeatureBuffer.dim b /\
    FeatureBuffer.num_frames b' = FeatureBuffer.num_frames b /\
    length (FeatureBuffer.m_buffer b') = length (FeatureBuffer.m_buffer b) /\
    FeatureBuffer.m_buffer b' !! Z.to_nat (p * FeatureBuffer.dim b + index)
      = Some v /\
    forall j : nat,
      j <> Z.to_nat (p * FeatureBuffer.dim b + index) ->
      FeatureBuffer.m_buffer b' !! j = FeatureBuffer.m_buffer b !! j.
Proof.
  unfold FeatureBuffer.dim, FeatureBuffer.num_frames. intros Hreach Hi.
  pose proof (reachable_wf b Hreach) as Hwf.
  pose proof (slot_bounds b frame index Hwf Hi) as Hs.
  exists (frame mod FeatureBuffer.m_num_frames b). eexists.
  split.
  { apply modulo_mod; [apply Hwf|].
    destruct Hwf as [Hd Hn Hmax _]. nia. }
  split; [now apply write_wf|]. cbn. fold (slot b frame index).
  split; [reflexivity|]. split; [reflexivity|].
  split; [apply length_insert|].
  split; [apply list_lookup_insert_eq; lia|].
  intros j Hj. now apply list_lookup_insert_ne.
Qed.

Lemma write_changes_one_element_witness :
  FeatureBuffer.reachable window /\
  0 <= 1 < FeatureBuffer.dim window /\
  exists p b',
    FeatureBuffer.modulo (-2) (FeatureBuffer.num_frames window) = Ok p /\
    FeatureBuffer.write window (-2) 1 seven = Ok b' /\
    FeatureBuffer.dim b' = FeatureBuffer.dim window /\
    FeatureBuffer.num_frames b' = FeatureBuffer.num_frames window /\
    length (FeatureBuffer.m_buffer b')
      = length (FeatureBuffer.m_buffer window) /\
    FeatureBuffer.m_buffer b' !! Z.to_nat (p * FeatureBuffer.dim window + 1)
      = Some seven /\
    forall j : nat,
      j <> Z.to_nat (p * FeatureBuffer.dim window + 1) ->
      FeatureBuffer.m_buffer b' !! j = FeatureBuffer.m_buffer window !! j.
Proof.
  assert (Hi : 0 <= 1 < FeatureBuffer.dim window) by (cbn; lia).
  split; [exact window_reachable|]. split; [exact Hi|].
  exact (write_changes_one_element window (-2) 1 seven window_reachable Hi).
Defined.

(** C7, as the specification states it, fails: on a buffer of 3 frames
    of dimension 2 whose element 0 of frame 0 holds 7.0, [resize(3, 2)]
    returns and the element still reads 7.0, not the zero of a cleared
    store. *)
Lemma resize_same_shape_keeps_data :
  FeatureBuffer.reachable window /\
  FeatureBuffer.num_frames window = 3 /\
  FeatureBuffer.dim window = 2 /\
  FeatureBuffer.read window 0 0 = Ok seven /\
  seven <> fzero /\
  exists b',
    FeatureBuffer.resize window 3 2 = Ok b' /\
    FeatureBuffer.read b' 0 0 = Ok seven /\
    FeatureBuffer.m_buffer b' = FeatureBuffer.m_buffer window.
Proof.
  split; [exact window_reachable|].
  do 3 (split; [reflexivity|]). split; [discriminate|].
  exists window. repeat split.
Qed.

(** C7, amended: [resize] with the arguments of the current shape
    returns and leaves the buffer as it is, every stored value included;
    in general a [resize] that returns gives the storage
    [num_frames * dim] elements, keeps the elements at the offsets that
    the old and the new storage share, and sets the added ones to zero. *)
Theorem resize_keeps_stored_values (b : FeatureBuffer.t) :
  (FeatureBuffer.reachable b ->
   FeatureBuffer.resize b (FeatureBuffer.num_frames b) (FeatureBuffer.dim b)
     = Ok b) /\
  (forall num_frames dim b',
      FeatureBuffer.resize b num_frames dim = Ok b' ->
      Z.of_nat (length (FeatureBuffer.m_buffer b')) = num_frames * dim /\
      forall i : nat,
        Z.of_nat i < num_frames * dim ->
        FeatureBuffer.m_buffer b' !! i =
          if decide (i < length (FeatureBuffer.m_buffer b))%nat
          then FeatureBuffer.m_buffer b !! i
          else Some fzero).
Proof.
  unfold FeatureBuffer.num_frames, FeatureBuffer.dim. split.
  - intros Hreach. apply reachable_wf in Hreach.
    destruct Hreach as [Hd Hn Hmax Hsize].
    apply resize_Ok_iff. repeat split; try assumption.
    rewrite vector_resize_same by lia. now destruct b.
  - intros nf d b' H. apply resize_Ok_iff in H.
    destruct H as (Hn & Hd & Hmax & ->). cbn.
    split; [rewrite vector_resize_length; lia|].
    intros i Hi. destruct (decide (i < length (FeatureBuffer.m_buffer b))%nat).
    + apply vector_resize_lookup_old; lia.
    + apply vector_resize_lookup_new; lia.
Qed.

Lemma resize_keeps_stored_values_witness :
  FeatureBuffer.reachable window /\
  FeatureBuffer.resize window (FeatureBuffer.num_frames window)
    (FeatureBuffer.dim window) = Ok window.
Proof.
  split; [exact window_reachable|].
  exact (proj1 (resize_keeps_stored_values window) window_reachable).
Defined.

(** * Further properties of the buffer *)

(** ** Offsets and frames *)

(** Two in-range elements share a storage offset only when their frames
    are congruent and their indices equal. *)
Lemma slot_injective (b : FeatureBuffer.t) (frame frame' index index' : Z) :
  FeatureBuffer.wf b ->
  0 <= index < FeatureBuffer.m_dim b ->
  0 <= index' < FeatureBuffer.m_dim b ->
  slot b frame index = slot b frame' index' ->
  frame mod FeatureBuffer.m_num_frames b
    = frame' mod FeatureBuffer.m_num_frames b /\ index = index'.
Proof.
  intros [Hd _ _ _] Hi Hi'. unfold slot.
  set (q := frame mod _). set (q' := frame' mod _). intros Heq.
  assert (q = q') by nia. split; [assumption | nia].
Qed.

Lemma modulo_not_congruent (n frame frame' : Z) :
  0 < n -> ~ (n | frame' - frame) -> frame' mod n <> frame mod n.
Proof.
  intros Hn Hndiv Heq. apply Hndiv.
  exists (frame' / n - frame / n).
  pose proof (Z.div_mod frame n). pose proof (Z.div_mod frame' n). lia.
Qed.

Lemma slot_distinct (b : FeatureBuffer.t) (frame frame' index index' : Z) :
  FeatureBuffer.wf b ->
  0 <= index < FeatureBuffer.m_dim b ->
  0 <= index' < FeatureBuffer.m_dim b ->
  ~ (FeatureBuffer.m_num_frames b | frame' - frame) \/ index' <> index ->
  Z.to_nat (slot b frame' index') <> Z.to_nat (slot b frame index).
Proof.
  intros Hwf Hi Hi' Hne Heq.
  pose proof (slot_bounds b frame index Hwf Hi).
  pose proof (slot_bounds b frame' index' Hwf Hi').
  destruct (slot_injective b frame' frame index' index Hwf Hi' Hi) as [Hm Hx];
    [lia|].
  destruct Hne as [Hndiv | Hidx]; [|contradiction].
  now apply (modulo_not_congruent _ frame frame' (FeatureBuffer.wf_num_frames b Hwf)).
Qed.

Lemma within_window_not_congruent (n frame frame' : Z) :
  0 < Z.abs (frame' - frame) < n -> ~ (n | frame' - frame).
Proof.
  intros Habs [k Hk]. rewrite Hk in Habs.
  assert (Hcases : k <= -1 \/ k = 0 \/ 1 <= k) by lia.
  destruct (Z.abs_spec (k * n)) as [[_ Ha] | [_ Ha]]; rewrite Ha in Habs;
    destruct Hcases as [Hk' | [Hk' | Hk']]; nia.
Qed.

(** The offset of an element of a frame numbered inside the window, and
    the frame and index of an offset. *)
Lemma slot_in_range_frame (b : FeatureBuffer.t) (frame index : Z) :
  0 <= frame < FeatureBuffer.m_num_frames b ->
  slot b frame index = frame * FeatureBuffer.m_dim b + index.
Proof.
  intros Hf. unfold slot. now rewrite Z.mod_small.
Qed.

Lemma slot_of_offset (b : FeatureBuffer.t) (k : Z) :
  0 < FeatureBuffer.m_dim b ->
  0 <= k < FeatureBuffer.m_num_frames b * FeatureBuffer.m_dim b ->
  0 <= k / FeatureBuffer.m_dim b < FeatureBuffer.m_num_frames b /\
  0 <= k mod FeatureBuffer.m_dim b < FeatureBuffer.m_dim b /\
  slot b (k / FeatureBuffer.m_dim b) (k mod FeatureBuffer.m_dim b) = k.
Proof.
  intros Hd Hk.
  assert (Hq : 0 <= k / FeatureBuffer.m_dim b < FeatureBuffer.m_num_frames b).
  { split; [apply Z.div_pos; lia|]. apply Z.div_lt_upper_bound; lia. }
  split; [exact Hq|]. split; [now apply Z.mod_pos_bound|].
  rewrite slot_in_range_frame by exact Hq.
  pose proof (Z.div_mod k (FeatureBuffer.m_dim b)). lia.
Qed.

(** What a read returns, in terms of the storage. *)
Lemma read_lookup (b : FeatureBuffer.t) (frame index : Z) (x : float) :
  FeatureBuffer.wf b -> 0 <= index < FeatureBuffer.m_dim b ->
  FeatureBuffer.m_buffer b !! Z.to_nat (slot b frame index) = Some x ->
  FeatureBuffer.read b frame index = Ok x.
Proof.
  intros Hwf Hi Hx.
  destruct (read_wf b frame index Hwf Hi) as (y & Hy & Hread). congruence.
Qed.

Lemma written_wf (b : FeatureBuffer.t) (k : nat) (v : float) :
  FeatureBuffer.wf b ->
  FeatureBuffer.wf
    (FeatureBuffer.set_buffer b (<[k := v]> (FeatureBuffer.m_buffer b))).
Proof.
  intros [Hd Hn Hmax Hsize]. split; cbn; try assumption.
  now rewrite length_insert.
Qed.

(** ** Outcomes of [resize] and the shape invariant *)


(** X2: on every buffer a program can hold, [dim()] and [num_frames()]
    are positive, their product is an [int], and the storage is not
    empty; so [modulo] never divides by zero and the offset
    [index * m_dim] never overflows. *)
Theorem shape_positive_invariant (b : FeatureBuffer.t) :
  FeatureBuffer.reachable b ->
  0 < FeatureBuffer.dim b /\
  0 < FeatureBuffer.num_frames b /\
  FeatureBuffer.num_frames b * FeatureBuffer.dim b <= INT_MAX /\
  FeatureBuffer.m_buffer b <> [].
Proof.
  intros Hreach. apply reachable_wf in Hreach.
  destruct Hreach as [Hd Hn Hmax Hsize].
  unfold FeatureBuffer.dim, FeatureBuffer.num_frames.
  repeat split; try assumption.
  intros Hnil. rewrite Hnil in Hsize. cbn in Hsize. nia.
Qed.

Lemma shape_positive_invariant_witness :
  FeatureBuffer.reachable window /\
  0 < FeatureBuffer.dim window /\
  0 < FeatureBuffer.num_frames window /\
  FeatureBuffer.num_frames window * FeatureBuffer.dim window <= INT_MAX /\
  FeatureBuffer.m_buffer window <> [].
Proof.
  split; [exact window_reachable|].
  exact (shape_positive_invariant window window_reachable).
Defined.

(** ** Frames and storage *)

(** X3: a frame number inside [[0, num_frames)] is its own slot:
    [modulo] returns it unchanged and the view starts at offset
    [frame * dim]. *)
Theorem in_range_frame_is_its_slot (b : FeatureBuffer.t) (frame : Z) :
  FeatureBuffer.reachable b ->
  0 <= frame < FeatureBuffer.num_frames b ->
  FeatureBuffer.modulo frame (FeatureBuffer.num_frames b) = Ok frame /\
  FeatureBuffer.index b frame =
    Ok (FeatureVec.make (Ptr (frame * FeatureBuffer.dim b))
          (FeatureBuffer.dim b)) /\
  FeatureBuffer.index_const b frame =
    Ok (FeatureVec.make (Ptr (frame * FeatureBuffer.dim b))
          (FeatureBuffer.dim b)).
Proof.
  unfold FeatureBuffer.num_frames, FeatureBuffer.dim. intros Hreach Hf.
  pose proof (reachable_wf b Hreach) as Hwf.
  assert (Hview : FeatureBuffer.index b frame =
            Ok (FeatureVec.make (Ptr (frame * FeatureBuffer.m_dim b))
                  (FeatureBuffer.m_dim b))).
  { rewrite index_wf by assumption.
    rewrite slot_in_range_frame by assumption. now rewrite Z.add_0_r. }
  split; [|split; exact Hview].
  rewrite modulo_mod.
  - now rewrite Z.mod_small.
  - lia.
  - destruct Hwf as [Hd Hn Hmax _]. nia.
Qed.

Lemma in_range_frame_is_its_slot_witness :
  FeatureBuffer.reachable window /\
  0 <= 2 < FeatureBuffer.num_frames window /\
  FeatureBuffer.modulo 2 (FeatureBuffer.num_frames window) = Ok 2 /\
  FeatureBuffer.index window 2 =
    Ok (FeatureVec.make (Ptr (2 * FeatureBuffer.dim window))
          (FeatureBuffer.dim window)) /\
  FeatureBuffer.index_const window 2 =
    Ok (FeatureVec.make (Ptr (2 * FeatureBuffer.dim window))
          (FeatureBuffer.dim window)).
Proof.
  assert (Hf : 0 <= 2 < FeatureBuffer.num_frames window) by (cbn; lia).
  split; [exact window_reachable|]. split; [exact Hf|].
  exact (in_range_frame_is_its_slot window 2 window_reachable Hf).
Defined.

(** X12: every element of the storage belongs to exactly one frame of
    the window: the element at offset [k] is what
    [buffer[k / dim][k % dim]] reads, and no other pair of a frame in
    [[0, num_frames)] and an index in [[0, dim)] reads that offset. *)
Theorem storage_is_tiled_by_frames (b : FeatureBuffer.t) (k : nat) (x : float) :
  FeatureBuffer.reachable b ->
  FeatureBuffer.m_buffer b !! k = Some x ->
  0 <= Z.of_nat k / FeatureBuffer.dim b < FeatureBuffer.num_frames b /\
  0 <= Z.of_nat k mod FeatureBuffer.dim b < FeatureBuffer.dim b /\
  FeatureBuffer.read b (Z.of_nat k / FeatureBuffer.dim b)
    (Z.of_nat k mod FeatureBuffer.dim b) = Ok x /\
  forall frame index,
    0 <= frame < FeatureBuffer.num_frames b ->
    0 <= index < FeatureBuffer.dim b ->
    frame * FeatureBuffer.dim b + index = Z.of_nat k ->
    frame = Z.of_nat k / FeatureBuffer.dim b /\
    index = Z.of_nat k mod FeatureBuffer.dim b.
Proof.
  unfold FeatureBuffer.num_frames, FeatureBuffer.dim. intros Hreach Hx.
  pose proof (reachable_wf b Hreach) as Hwf.
  pose proof (lookup_lt_Some _ _ _ Hx) as Hlt.
  destruct Hwf as [Hd Hn Hmax Hsize].
  assert (Hk : 0 <= Z.of_nat k
               < FeatureBuffer.m_num_frames b * FeatureBuffer.m_dim b) by lia.
  destruct (slot_of_offset b (Z.of_nat k) Hd Hk) as (Hq & Hr & Hslot).
  split; [exact Hq|]. split; [exact Hr|]. split.
  - apply read_lookup; [split; assumption | exact Hr |].
    now rewrite Hslot, Nat2Z.id.
  - intros frame index Hf Hi Heq.
    assert (Hdiv : Z.of_nat k / FeatureBuffer.m_dim b = frame).
    { symmetry. apply Z.div_unique with (r := index); lia. }
    split; [lia|].
    pose proof (Z.div_mod (Z.of_nat k) (FeatureBuffer.m_dim b)). nia.
Qed.

Lemma storage_is_tiled_by_frames_witness :
  FeatureBuffer.reachable window /\
  FeatureBuffer.m_buffer window !! 0%nat = Some seven /\
  FeatureBuffer.read window (Z.of_nat 0 / FeatureBuffer.dim window)
    (Z.of_nat 0 mod FeatureBuffer.dim window) = Ok seven.
Proof.
  assert (Hx : FeatureBuffer.m_buffer window !! 0%nat = Some seven)
    by reflexivity.
  split; [exact window_reachable|]. split; [exact Hx|].
  exact (proj1 (proj2 (proj2
           (storage_is_tiled_by_frames window 0 seven window_reachable Hx)))).
Defined.

(** ** Writes *)

Lemma read_after_write_elsewhere (b : FeatureBuffer.t)
    (frame index frame' index' : Z) (v : float) :
  FeatureBuffer.wf b ->
  0 <= index < FeatureBuffer.m_dim b ->
  0 <= index' < FeatureBuffer.m_dim b ->
  ~ (FeatureBuffer.m_num_frames b | frame' - frame) \/ index' <> index ->
  exists b',
    FeatureBuffer.write b frame index v = Ok b' /\
    FeatureBuffer.read b' frame' index' = FeatureBuffer.read b frame' index'.
Proof.
  intros Hwf Hi Hi' Hne. eexists. split; [now apply write_wf|].
  destruct (read_wf b frame' index' Hwf Hi') as (x & Hx & ->).
  apply read_lookup; [now apply written_wf | assumption |].
  change (slot (FeatureBuffer.set_buffer b _) frame' index')
    with (slot b frame' index').
  cbn. rewrite list_lookup_insert_ne; [assumption|].
  apply not_eq_sym. now apply slot_distinct.
Qed.

(** X4: a write through [buffer[frame][index]] leaves what
    [buffer[frame'][index']] reads as it was whenever [frame'] is not
    congruent to [frame] modulo [num_frames] or [index'] differs from
    [index]. *)
Theorem write_leaves_other_elements (b : FeatureBuffer.t)
    (frame index frame' index' : Z) (v : float) :
  FeatureBuffer.reachable b ->
  0 <= index < FeatureBuffer.dim b ->
  0 <= index' < FeatureBuffer.dim b ->
  ~ (FeatureBuffer.num_frames b | frame' - frame) \/ index' <> index ->
  exists b',
    FeatureBuffer.write b frame index v = Ok b' /\
    FeatureBuffer.read b' frame' index' = FeatureBuffer.read b frame' index'.
Proof.
  intros Hreach. apply read_after_write_elsewhere. now apply reachable_wf.
Qed.

Lemma write_leaves_other_elements_witness :
  FeatureBuffer.reachable window /\
  0 <= 0 < FeatureBuffer.dim window /\
  0 <= 0 < FeatureBuffer.dim window /\
  (~ (FeatureBuffer.num_frames window | 3 - 4) \/ 0 <> 0) /\
  exists b',
    FeatureBuffer.write window 4 0 fzero = Ok b' /\
    FeatureBuffer.read b' 3 0 = FeatureBuffer.read window 3 0.
Proof.
  assert (Hi : 0 <= 0 < FeatureBuffer.dim window) by (cbn; lia).
  assert (Hne : ~ (FeatureBuffer.num_frames window | 3 - 4) \/ 0 <> 0).
  { left. intros [k Hk]. cbn in Hk. lia. }
  split; [exact window_reachable|]. split; [exact Hi|]. split; [exact Hi|].
  split; [exact Hne|].
  exact (write_leaves_other_elements window 4 0 3 0 fzero
           window_reachable Hi Hi Hne).
Defined.

(** X5: the window retains [num_frames] consecutive frames: a write to
    any element of [frame'] leaves every element of [frame] as it was
    when the two frame numbers differ by less than [num_frames]. *)
Theorem window_frames_are_retained (b : FeatureBuffer.t)
    (frame frame' index index' : Z) (v : float) :
  FeatureBuffer.reachable b ->
  0 < Z.abs (frame' - frame) < FeatureBuffer.num_frames b ->
  0 <= index < FeatureBuffer.dim b ->
  0 <= index' < FeatureBuffer.dim b ->
  exists b',
    FeatureBuffer.write b frame' index' v = Ok b' /\
    FeatureBuffer.read b' frame index = FeatureBuffer.read b frame index.
Proof.
  intros Hreach Hnear Hi Hi'.
  apply read_after_write_elsewhere;
    [now apply reachable_wf | assumption | assumption |].
  left. apply within_window_not_congruent.
  replace (frame - frame') with (- (frame' - frame)) by lia.
  now rewrite Z.abs_opp.
Qed.

Lemma window_frames_are_retained_witness :
  FeatureBuffer.reachable window /\
  0 < Z.abs (2 - 0) < FeatureBuffer.num_frames window /\
  0 <= 0 < FeatureBuffer.dim window /\
  0 <= 1 < FeatureBuffer.dim window /\
  exists b',
    FeatureBuffer.write window 2 1 fzero = Ok b' /\
    FeatureBuffer.read b' 0 0 = FeatureBuffer.read window 0 0.
Proof.
  assert (Hnear : 0 < Z.abs (2 - 0) < FeatureBuffer.num_frames window)
    by (cbn; lia).
  assert (Hi : 0 <= 0 < FeatureBuffer.dim window) by (cbn; lia).
  assert (Hi' : 0 <= 1 < FeatureBuffer.dim window) by (cbn; lia).
  split; [exact window_reachable|]. split; [exact Hnear|].
  split; [exact Hi|]. split; [exact Hi'|].
  exact (window_frames_are_retained window 0 2 0 1 fzero
           window_reachable Hnear Hi Hi').
Defined.

(** X6: the last write wins: after a write through
    [buffer[frame][index]], a write through [buffer[frame'][index]] with
    [frame'] congruent to [frame] gives the buffer that the second write
    alone gives. *)
Theorem overwrite_forgets_first_write (b : FeatureBuffer.t)
    (frame frame' index : Z) (v w : float) :
  FeatureBuffer.reachable b ->
  (FeatureBuffer.num_frames b | frame' - frame) ->
  0 <= index < FeatureBuffer.dim b ->
  exists b1 b2,
    FeatureBuffer.write b frame index v = Ok b1 /\
    FeatureBuffer.write b1 frame' index w = Ok b2 /\
    FeatureBuffer.write b frame' index w = Ok b2.
Proof.
  unfold FeatureBuffer.num_frames, FeatureBuffer.dim. intros Hreach Hdiv Hi.
  pose proof (reachable_wf b Hreach) as Hwf.
  do 2 eexists. split; [now apply write_wf|]. split.
  - now apply write_wf; [apply written_wf|].
  - rewrite write_wf by assumption. f_equal.
    change (slot (FeatureBuffer.set_buffer b _) frame' index)
      with (slot b frame' index).
    rewrite (slot_congruent b frame frame') by assumption.
    unfold FeatureBuffer.set_buffer. cbn.
    now rewrite list_insert_insert_eq.
Qed.

Lemma overwrite_forgets_first_write_witness :
  FeatureBuffer.reachable window /\
  (FeatureBuffer.num_frames window | -2 - 1) /\
  0 <= 1 < FeatureBuffer.dim window /\
  exists b1 b2,
    FeatureBuffer.write window 1 1 seven = Ok b1 /\
    FeatureBuffer.write b1 (-2) 1 fzero = Ok b2 /\
    FeatureBuffer.write window (-2) 1 fzero = Ok b2.
Proof.
  assert (Hdiv : (FeatureBuffer.num_frames window | -2 - 1))
    by (exists (-1); reflexivity).
  assert (Hi : 0 <= 1 < FeatureBuffer.dim window) by (cbn; lia).
  split; [exact window_reachable|]. split; [exact Hdiv|]. split; [exact Hi|].
  exact (overwrite_forgets_first_write window 1 (-2) 1 seven fzero
           window_reachable Hdiv Hi).
Defined.

(** X7: writes to different elements commute: when [frame'] is not
    congruent to [frame] or [index'] differs from [index], the two
    writes give the same buffer in either order. *)
Theorem writes_to_different_elements_commute (b : FeatureBuffer.t)
    (frame index frame' index' : Z) (v w : float) :
  FeatureBuffer.reachable b ->
  0 <= index < FeatureBuffer.dim b ->
  0 <= index' < FeatureBuffer.dim b ->
  ~ (FeatureBuffer.num_frames b | frame' - frame) \/ index' <> index ->
  exists b1 b2 b12,
    FeatureBuffer.write b frame index v = Ok b1 /\
    FeatureBuffer.write b frame' index' w = Ok b2 /\
    FeatureBuffer.write b1 frame' index' w = Ok b12 /\
    FeatureBuffer.write b2 frame index v = Ok b12.
Proof.
  unfold FeatureBuffer.num_frames, FeatureBuffer.dim.
  intros Hreach Hi Hi' Hne.
  pose proof (reachable_wf b Hreach) as Hwf.
  pose proof (slot_distinct b frame frame' index index' Hwf Hi Hi' Hne) as Hs.
  do 3 eexists.
  split; [now apply write_wf|]. split; [now apply write_wf|].
  split; [now apply write_wf; [apply written_wf|]|].
  rewrite write_wf by (apply written_wf || idtac; assumption).
  f_equal.
  change (slot (FeatureBuffer.set_buffer b _) frame index)
    with (slot b frame index).
  change (slot (FeatureBuffer.set_buffer b _) frame' index')
    with (slot b frame' index').
  unfold FeatureBuffer.set_buffer. cbn.
  now rewrite list_insert_insert_ne by exact (not_eq_sym Hs).
Qed.

Lemma writes_to_different_elements_commute_witness :
  FeatureBuffer.reachable window /\
  0 <= 0 < FeatureBuffer.dim window /\
  0 <= 1 < FeatureBuffer.dim window /\
  (~ (FeatureBuffer.num_frames window | 5 - 2) \/ 1 <> 0) /\
  exists b1 b2 b12,
    FeatureBuffer.write window 2 0 seven = Ok b1 /\
    FeatureBuffer.write window 5 1 fzero = Ok b2 /\
    FeatureBuffer.write b1 5 1 fzero = Ok b12 /\
    FeatureBuffer.write b2 2 0 seven = Ok b12.
Proof.
  assert (Hi : 0 <= 0 < FeatureBuffer.dim window) by (cbn; lia).
  assert (Hi' : 0 <= 1 < FeatureBuffer.dim window) by (cbn; lia).
  assert (Hne : ~ (FeatureBuffer.num_frames window | 5 - 2) \/ 1 <> 0)
    by (right; lia).
  split; [exact window_reachable|]. split; [exact Hi|]. split; [exact Hi'|].
  split; [exact Hne|].
  exact (writes_to_different_elements_commute window 2 0 5 1 seven fzero
           window_reachable Hi Hi' Hne).
Defined.

(** X8: writing back the value that [buffer[frame][index]] reads leaves
    the buffer as it is. *)
Theorem write_back_is_identity (b : FeatureBuffer.t) (frame index : Z) :
  FeatureBuffer.reachable b ->
  0 <= index < FeatureBuffer.dim b ->
  exists x,
    FeatureBuffer.read b frame index = Ok x /\
    FeatureBuffer.write b frame index x = Ok b.
Proof.
  unfold FeatureBuffer.dim. intros Hreach Hi.
  pose proof (reachable_wf b Hreach) as Hwf.
  destruct (read_wf b frame index Hwf Hi) as (x & Hx & Hread).
  exists x. split; [assumption|].
  rewrite write_wf by assumption. f_equal.
  rewrite list_insert_id by assumption. now destruct b.
Qed.

Lemma write_back_is_identity_witness :
  FeatureBuffer.reachable window /\
  0 <= 0 < FeatureBuffer.dim window /\
  exists x,
    FeatureBuffer.read window 3 0 = Ok x /\
    FeatureBuffer.write window 3 0 x = Ok window.
Proof.
  assert (Hi : 0 <= 0 < FeatureBuffer.dim window) by (cbn; lia).
  split; [exact window_reachable|]. split; [exact Hi|].
  exact (write_back_is_identity window 3 0 window_reachable Hi).
Defined.

(** ** Reads after [resize] *)

(** What the element at offset [k] of a resized buffer is. *)
Lemma resized_lookup (b b' : FeatureBuffer.t) (num_frames dim : Z) (k : nat) :
  FeatureBuffer.resize b num_frames dim = Ok b' ->
  Z.of_nat k < num_frames * dim ->
  FeatureBuffer.m_buffer b' !! k =
    if decide (k < length (FeatureBuffer.m_buffer b))%nat
    then FeatureBuffer.m_buffer b !! k else Some fzero.
Proof.
  intros H Hk. apply resize_Ok_iff in H. destruct H as (_ & _ & _ & ->).
  cbn. destruct (decide _).
  - apply vector_resize_lookup_old; lia.
  - apply vector_resize_lookup_new; lia.
Qed.

Lemma resized_shape (b b' : FeatureBuffer.t) (num_frames dim : Z) :
  FeatureBuffer.resize b num_frames dim = Ok b' ->
  FeatureBuffer.m_num_frames b' = num_frames /\ FeatureBuffer.m_dim b' = dim.
Proof.
  intros H. apply resize_Ok_iff in H. destruct H as (_ & _ & _ & ->).
  split; reflexivity.
Qed.

(** X9: a freshly constructed buffer reads 0.0 at its only element
    through every frame number, and so does every element of a buffer
    resized right after its construction. *)
Theorem fresh_buffer_reads_zero (num_frames dim : Z) (b : FeatureBuffer.t)
    (frame index : Z) :
  FeatureBuffer.resize FeatureBuffer.ctor num_frames dim = Ok b ->
  0 <= index < dim ->
  FeatureBuffer.read FeatureBuffer.ctor frame 0 = Ok fzero /\
  FeatureBuffer.read b frame index = Ok fzero.
Proof.
  intros Hres Hi. split.
  - apply read_lookup; [apply ctor_wf | cbn; lia |].
    unfold slot. cbn. now rewrite Z.mod_1_r.
  - pose proof (resize_wf _ _ _ _ Hres) as Hwf.
    destruct (resized_shape _ _ _ _ Hres) as [Hn Hd].
    assert (Hi' : 0 <= index < FeatureBuffer.m_dim b) by lia.
    pose proof (slot_bounds b frame index Hwf Hi') as Hs.
    apply read_lookup; [assumption | assumption |].
    rewrite (resized_lookup _ _ _ _ _ Hres)
      by (rewrite (FeatureBuffer.wf_size b Hwf), Hn, Hd in Hs; lia).
    destruct (decide _) as [Hlt | _]; [|reflexivity].
    cbn in Hlt.
    now replace (Z.to_nat (slot b frame index)) with 0%nat by lia.
Qed.

Lemma fresh_buffer_reads_zero_witness :
  FeatureBuffer.resize FeatureBuffer.ctor 3 2
    = Ok (FeatureBuffer.mk 2 3 (replicate 6 fzero)) /\
  0 <= 1 < 2 /\
  FeatureBuffer.read FeatureBuffer.ctor (-4) 0 = Ok fzero /\
  FeatureBuffer.read (FeatureBuffer.mk 2 3 (replicate 6 fzero)) (-4) 1
    = Ok fzero.
Proof.
  assert (Hres : FeatureBuffer.resize FeatureBuffer.ctor 3 2
                 = Ok (FeatureBuffer.mk 2 3 (replicate 6 fzero)))
    by reflexivity.
  assert (Hi : 0 <= 1 < 2) by lia.
  split; [exact Hres|]. split; [exact Hi|].
  exact (fresh_buffer_reads_zero 3 2 _ (-4) 1 Hres Hi).
Defined.

(** X10: [resize] keeps the flat storage, not the frames: the element
    at an offset [k] that the old and the new storage share is read
    after the call at frame [k / dim'], index [k % dim'] of the new
    shape, where before it was at frame [k / dim], index [k % dim]. *)
Theorem resize_moves_elements_between_frames (b b' : FeatureBuffer.t)
    (num_frames' dim' k : Z) :
  FeatureBuffer.reachable b ->
  FeatureBuffer.resize b num_frames' dim' = Ok b' ->
  0 <= k < num_frames' * dim' ->
  k < FeatureBuffer.num_frames b * FeatureBuffer.dim b ->
  FeatureBuffer.read b' (k / dim') (k mod dim') =
    FeatureBuffer.read b (k / FeatureBuffer.dim b) (k mod FeatureBuffer.dim b).
Proof.
  unfold FeatureBuffer.num_frames, FeatureBuffer.dim.
  intros Hreach Hres Hk Hold.
  pose proof (reachable_wf b Hreach) as Hwf.
  pose proof (resize_wf _ _ _ _ Hres) as Hwf'.
  destruct (resized_shape _ _ _ _ Hres) as [Hn' Hd'].
  destruct (slot_of_offset b k (FeatureBuffer.wf_dim b Hwf))
    as (_ & Hr & Hslot); [lia|].
  destruct (slot_of_offset b' k (FeatureBuffer.wf_dim b' Hwf'))
    as (_ & Hr' & Hslot'); [rewrite Hn', Hd'; lia|].
  rewrite Hd' in Hr', Hslot'.
  destruct (read_wf b (k / FeatureBuffer.m_dim b) _ Hwf Hr) as (x & Hx & ->).
  rewrite Hslot in Hx.
  apply read_lookup; [assumption | lia |].
  rewrite Hslot'.
  rewrite (resized_lookup _ _ _ _ (Z.to_nat k) Hres) by lia.
  destruct (decide _) as [_ | Hge]; [assumption|].
  pose proof (FeatureBuffer.wf_size b Hwf). lia.
Qed.

Lemma resize_moves_elements_between_frames_witness :
  FeatureBuffer.reachable window /\
  FeatureBuffer.resize window 2 3
    = Ok (FeatureBuffer.mk 3 2 (FeatureBuffer.m_buffer window)) /\
  0 <= 3 < 2 * 3 /\
  3 < FeatureBuffer.num_frames window * FeatureBuffer.dim window /\
  FeatureBuffer.read (FeatureBuffer.mk 3 2 (FeatureBuffer.m_buffer window))
    (3 / 3) (3 mod 3) =
    FeatureBuffer.read window (3 / FeatureBuffer.dim window)
      (3 mod FeatureBuffer.dim window).
Proof.
  assert (Hres : FeatureBuffer.resize window 2 3
                 = Ok (FeatureBuffer.mk 3 2 (FeatureBuffer.m_buffer window)))
    by reflexivity.
  assert (Hk : 0 <= 3 < 2 * 3) by lia.
  assert (Hold : 3 < FeatureBuffer.num_frames window * FeatureBuffer.dim window)
    by (cbn; lia).
  split; [exact window_reachable|]. split; [exact Hres|].
  split; [exact Hk|]. split; [exact Hold|].
  exact (resize_moves_elements_between_frames window _ 2 3 3
           window_reachable Hres Hk Hold).
Defined.

(** X11: a [resize] that keeps [dim] and changes only [num_frames]
    keeps the frames numbered below both frame counts, and the frames it
    adds read 0.0. *)
Theorem resize_same_dim_keeps_frames (b b' : FeatureBuffer.t)
    (num_frames' frame index : Z) :
  FeatureBuffer.reachable b ->
  FeatureBuffer.resize b num_frames' (FeatureBuffer.dim b) = Ok b' ->
  0 <= frame < num_frames' ->
  0 <= index < FeatureBuffer.dim b ->
  FeatureBuffer.read b' frame index =
    if frame <? FeatureBuffer.num_frames b
    then FeatureBuffer.read b frame index
    else Ok fzero.
Proof.
  unfold FeatureBuffer.num_frames, FeatureBuffer.dim.
  intros Hreach Hres Hf Hi.
  pose proof (reachable_wf b Hreach) as Hwf.
  pose proof (resize_wf _ _ _ _ Hres) as Hwf'.
  destruct (resized_shape _ _ _ _ Hres) as [Hn' Hd'].
  pose proof (FeatureBuffer.wf_size b Hwf) as Hsize.
  assert (Hslot' : slot b' frame index = frame * FeatureBuffer.m_dim b + index).
  { rewrite slot_in_range_frame by lia. now rewrite Hd'. }
  assert (Hlookup : FeatureBuffer.m_buffer b' !! Z.to_nat (slot b' frame index) =
            if decide (Z.to_nat (slot b' frame index)
                       < length (FeatureBuffer.m_buffer b))%nat
            then FeatureBuffer.m_buffer b !! Z.to_nat (slot b' frame index)
            else Some fzero).
  { apply (resized_lookup _ _ _ _ _ Hres). rewrite Hslot'. nia. }
  destruct (Z.ltb_spec frame (FeatureBuffer.m_num_frames b)) as [Hlt | Hge].
  - destruct (read_wf b frame index Hwf Hi) as (x & Hx & ->).
    rewrite slot_in_range_frame in Hx by lia.
    apply read_lookup; [assumption | lia |].
    rewrite Hlookup, Hslot'. clear Hlookup.
    destruct (decide _) as [_ | Hout]; [assumption | nia].
  - apply read_lookup; [assumption | lia |].
    rewrite Hlookup, Hslot'. clear Hlookup.
    destruct (decide _) as [Hin | _]; [nia | reflexivity].
Qed.

Lemma resize_same_dim_keeps_frames_witness :
  FeatureBuffer.reachable window /\
  FeatureBuffer.resize window 4 (FeatureBuffer.dim window)
    = Ok (FeatureBuffer.mk 2 4
            (FeatureBuffer.m_buffer window ++ [fzero; fzero])) /\
  0 <= 0 < 4 /\
  0 <= 0 < FeatureBuffer.dim window /\
  FeatureBuffer.read
    (FeatureBuffer.mk 2 4 (FeatureBuffer.m_buffer window ++ [fzero; fzero]))
    0 0 =
    if 0 <? FeatureBuffer.num_frames window
    then FeatureBuffer.read window 0 0
    else Ok fzero.
Proof.
  assert (Hres : FeatureBuffer.resize window 4 (FeatureBuffer.dim window)
                 = Ok (FeatureBuffer.mk 2 4
                         (FeatureBuffer.m_buffer window ++ [fzero; fzero])))
    by reflexivity.
  assert (Hf : 0 <= 0 < 4) by lia.
  assert (Hi : 0 <= 0 < FeatureBuffer.dim window) by (cbn; lia).
  split; [exact window_reachable|]. split; [exact Hres|].
  split; [exact Hf|]. split; [exact Hi|].
  exact (resize_same_dim_keeps_frames window _ 4 0 0
           window_reachable Hres Hf Hi).
Defined.

(** ** Views *)

(** X13: a view whose dimension is zero or negative throws the bounds
    error at every index, read or mutable, whatever its base pointer. *)
Theorem view_without_elements_always_throws (fv : FeatureVec.t) (index : Z) :
  FeatureVec.dim fv <= 0 ->
  FeatureVec.index_const fv index = Throw "FeatureVec out of bounds" /\
  FeatureVec.index fv index = Throw "FeatureVec out of bounds".
Proof.
  unfold FeatureVec.dim. intros Hdim.
  assert (Hout : index < 0 \/ index >= FeatureVec.m_dim fv) by lia.
  split; [rewrite view_index_const_eq|]; now apply view_index_out.
Qed.

Lemma view_without_elements_always_throws_witness :
  FeatureVec.dim (FeatureVec.make (Ptr 4) (-1)) <= 0 /\
  FeatureVec.index_const (FeatureVec.make (Ptr 4) (-1)) 0
    = Throw "FeatureVec out of bounds" /\
  FeatureVec.index (FeatureVec.make (Ptr 4) (-1)) 0
    = Throw "FeatureVec out of bounds".
Proof.
  assert (Hdim : FeatureVec.dim (FeatureVec.make (Ptr 4) (-1)) <= 0)
    by (cbn; lia).
  split; [exact Hdim|].
  exact (view_without_elements_always_throws
           (FeatureVec.make (Ptr 4) (-1)) 0 Hdim).
Defined.
